(** * Server-Timing header codec of go-server-timing

    A shallow embedding of [header.go] (ParseHeader, Header.String,
    Metric.GoString, headerParams) and of [metric.go] (Metric.String),
    together with the pieces of Go's standard library and of the vendored
    package [github.com/golang/gddo/httputil/header] they call.

    Go strings are byte sequences: they are embedded as [string], whose
    characters are the 256 values of [ascii].  A [map[string]string] is a
    [gmap string string]; [time.Duration] is a 64-bit signed count of
    nanoseconds, embedded as [Z] with its wrap-around written out. *)

From Stdlib Require Import ZArith Ascii String List Lia.
From stdpp Require Import base option list gmap strings.

Local Open Scope string_scope.
Local Open Scope Z_scope.

(** ** Bytes *)

Definition byte_of (c : ascii) : N := N_of_ascii c.

(** The double quote and the backslash, by their codes. *)
Definition dquote : ascii := ascii_of_nat 34.
Definition bslash : ascii := ascii_of_nat 92.

Definition is_byte (c d : ascii) : bool := bool_decide (c = d).

Definition in_range (lo hi : N) (c : ascii) : bool :=
  ((lo <=? byte_of c) && (byte_of c <=? hi))%N.

(** [s[lo:hi]] on a Go string (the callers below keep [lo <= hi <= len s]). *)
Definition slice (s : string) (lo hi : nat) : string :=
  String.substring lo (hi - lo) s.

(** ** Go's strconv *)

Module strconv.

Inductive NumError := ErrSyntax | ErrRange.

Definition minInt : Z := - 2 ^ 63.
Definition maxInt : Z := 2 ^ 63 - 1.

Definition isDigit (c : ascii) : bool := in_range 48 57 c.

Definition digitVal (c : ascii) : Z := Z.of_N (byte_of c) - 48.

(** The decimal value of a string of digits, most significant first. *)
Fixpoint digits (acc : Z) (s : string) : option Z :=
  match s with
  | EmptyString => Some acc
  | String c s' =>
      if isDigit c then digits (acc * 10 + digitVal c) s' else None
  end.

(** [strconv.Atoi]: an optional sign, then one or more decimal digits; the
    value has to fit Go's [int] (64 bits). *)
Definition Atoi (s : string) : Z + NumError :=
  let '(neg, body) :=
    match s with
    | String c s' =>
        if is_byte c "-" then (true, s')
        else if is_byte c "+" then (false, s')
        else (false, s)
    | EmptyString => (false, s)
    end in
  match body with
  | EmptyString => inr ErrSyntax
  | _ =>
      match digits 0 body with
      | None => inr ErrSyntax
      | Some n =>
          let v := if neg then - n else n in
          if (minInt <=? v) && (v <=? maxInt) then inl v else inr ErrRange
      end
  end.

(** The decimal digits of a positive number, least significant last. *)
Fixpoint itoa_pos (fuel : nat) (n : Z) (acc : string) : string :=
  match fuel with
  | O => acc
  | S fuel' =>
      let d := ascii_of_N (Z.to_N (48 + n mod 10)) in
      if n <? 10 then String d acc
      else itoa_pos fuel' (n / 10) (String d acc)
  end.

(** [strconv.Itoa]; twenty digits are enough for a 64-bit value. *)
Definition Itoa (n : Z) : string :=
  if n <? 0 then String "-" (itoa_pos 20 (- n) EmptyString)
  else itoa_pos 20 n EmptyString.

End strconv.

(** ** Go's strings and net/http, as far as the codec uses them *)

Module strings.

Definition lower (c : ascii) : ascii :=
  if in_range 65 90 c then ascii_of_N (byte_of c + 32) else c.

Definition upper (c : ascii) : ascii :=
  if in_range 97 122 c then ascii_of_N (byte_of c - 32) else c.

(** [strings.ToLower] on a string of ASCII bytes: the only strings it is
    given here are tokens, which hold no byte above 127. *)
Fixpoint ToLower (s : string) : string :=
  match s with
  | EmptyString => EmptyString
  | String c s' => String (lower c) (ToLower s')
  end.

(** [strings.Join]. *)
Fixpoint Join (parts : list string) (sep : string) : string :=
  match parts with
  | [] => EmptyString
  | [p] => p
  | p :: ps => p +:+ sep +:+ Join ps sep
  end.

End strings.

Module http.

(** RFC 7230 token bytes ([validHeaderFieldByte] of net/textproto). *)
Definition isTokenByte (c : ascii) : bool :=
  in_range 33 126 c &&
  negb (existsb (is_byte c)
          (list_ascii_of_string
             (String dquote (String bslash "(),/:;<=>?@[]{}")))).

(** [http.Header]: a header name maps to the list of its values. *)
Abbreviation Header := (gmap string (list string)).

Fixpoint canonical (up : bool) (s : string) : string :=
  match s with
  | EmptyString => EmptyString
  | String c s' =>
      String (if up then strings.upper c else strings.lower c)
             (canonical (is_byte c "-") s')
  end.

(** [http.CanonicalHeaderKey]: a name with a byte outside the token grammar
    is returned unchanged. *)
Definition CanonicalHeaderKey (s : string) : string :=
  if forallb isTokenByte (list_ascii_of_string s) then canonical true s
  else s.

(** [Header.Get]: the first value of the name, or the empty string. *)
Definition Get (h : Header) (key : string) : string :=
  match h !! CanonicalHeaderKey key with
  | Some (v :: _) => v
  | _ => EmptyString
  end.

End http.

(** ** The vendored package httputil/header *)

Module header.

(** Octet classes of RFC 2616 (the package's [octetTypes] table). *)
Definition isSpace (c : ascii) : bool :=
  existsb (is_byte c)
    [ascii_of_nat 32; ascii_of_nat 9; ascii_of_nat 13; ascii_of_nat 10].

Definition isSeparator (c : ascii) : bool :=
  existsb (is_byte c)
    (ascii_of_nat 32 :: ascii_of_nat 9 :: dquote :: bslash ::
     list_ascii_of_string "(),/:;<=>?@[]{}").

Definition isCtl (c : ascii) : bool :=
  (byte_of c <=? 31)%N || (byte_of c =? 127)%N.

Definition isChar (c : ascii) : bool := (byte_of c <=? 127)%N.

Definition isToken (c : ascii) : bool :=
  isChar c && negb (isCtl c) && negb (isSeparator c).

(** The state of ParseList's scan over one header value: the bounds of the
    element being read, the two quoting flags and the elements found. *)
Record listScan := {
  begin : nat;
  endp : nat;
  escape : bool;
  quote : bool;
  result : list string
}.

(** One turn of ParseList's loop, at byte [b] of index [i] of [s]. *)
Definition scanByte (s : string) (i : nat) (b : ascii) (st : listScan)
  : listScan :=
  if escape st then
    {| begin := begin st; endp := S i; escape := false; quote := quote st;
       result := result st |}
  else if quote st then
    {| begin := begin st; endp := S i;
       escape := is_byte b bslash;
       quote := negb (is_byte b dquote);
       result := result st |}
  else if is_byte b dquote then
    {| begin := begin st; endp := S i; escape := false; quote := true;
       result := result st |}
  else if isSpace b then
    if (begin st =? endp st)%nat then
      {| begin := S i; endp := S i; escape := false; quote := false;
         result := result st |}
    else st
  else if is_byte b "," then
    {| begin := S i; endp := S i; escape := false; quote := false;
       result := if (begin st <? endp st)%nat
                 then result st ++ [slice s (begin st) (endp st)]
                 else result st |}
  else
    {| begin := begin st; endp := S i; escape := false; quote := false;
       result := result st |}.

Fixpoint scanFrom (s : string) (i : nat) (rest : string) (st : listScan)
  : listScan :=
  match rest with
  | EmptyString => st
  | String b rest' => scanFrom s (S i) rest' (scanByte s i b st)
  end.

(** The scan of one value [s], started with the elements found so far. *)
Definition scanValue (found : list string) (s : string) : listScan :=
  scanFrom s 0 s
    {| begin := 0; endp := 0; escape := false; quote := false;
       result := found |}.

Definition parseListValue (found : list string) (s : string) : list string :=
  let st := scanValue found s in
  if (begin st <? endp st)%nat
  then result st ++ [slice s (begin st) (endp st)]
  else result st.

(** Modelled from the spec: [header.ParseList] of the vendored package
    github.com/golang/gddo/httputil/header, which is not among the sources.
    It splits each value of the header at the commas that stand outside
    quoted strings; a quoted string may hold escaped quotes, commas and
    semicolons.  Elements are trimmed of surrounding white space, kept
    quoted as they are, and empty elements are dropped. *)
Definition ParseList (hk : http.Header * string) : list string :=
  let '(h, key) := hk in
  fold_left parseListValue
    (default [] (h !! http.CanonicalHeaderKey key)) [].

Fixpoint skipSpace (s : string) : string :=
  match s with
  | String c s' => if isSpace c then skipSpace s' else s
  | EmptyString => s
  end.

(** The longest prefix whose bytes satisfy [p], and the rest. *)
Fixpoint span (p : ascii -> bool) (s : string) : string * string :=
  match s with
  | String c s' =>
      if p c then let '(tok, rest) := span p s' in (String c tok, rest)
      else (EmptyString, s)
  | EmptyString => (EmptyString, EmptyString)
  end.

Definition expectToken (s : string) : string * string := span isToken s.

Definition expectTokenSlash (s : string) : string * string :=
  span (fun b => isToken b || is_byte b "/") s.

(** After the first backslash of a quoted string: [p] is the unescaped
    text so far. An unterminated string gives two empty strings. *)
Fixpoint quotedEscaped (p : string) (esc : bool) (s : string)
  : string * string :=
  match s with
  | EmptyString => (EmptyString, EmptyString)
  | String b s' =>
      if esc then quotedEscaped (p +:+ String b EmptyString) false s'
      else if is_byte b bslash then quotedEscaped p true s'
      else if is_byte b dquote then (p, s')
      else quotedEscaped (p +:+ String b EmptyString) false s'
  end.

(** A quoted string up to its first backslash; [pre] is the text read. *)
Fixpoint quotedPlain (pre : string) (s : string) : string * string :=
  match s with
  | EmptyString => (EmptyString, EmptyString)
  | String b s' =>
      if is_byte b dquote then (pre, s')
      else if is_byte b bslash then quotedEscaped pre true s'
      else quotedPlain (pre +:+ String b EmptyString) s'
  end.

Definition expectTokenOrQuoted (s : string) : string * string :=
  match s with
  | String c s' =>
      if is_byte c dquote then quotedPlain EmptyString s'
      else expectToken s
  | EmptyString => expectToken s
  end.

(** The loop of ParseValueAndParams over the [;name=value] pairs left in
    [s]; it goes on while [s] starts with a semicolon.  Every turn consumes
    the semicolon at least, so [String.length s] turns are enough
    ([paramsLoop_fuel] below). *)
Fixpoint paramsLoop (fuel : nat) (s : string) (params : gmap string string)
  : gmap string string :=
  match fuel with
  | O => params
  | S fuel' =>
      match s with
      | String c s1 =>
          if is_byte c ";" then
            let '(pkey, s2) := expectToken (skipSpace s1) in
            if bool_decide (pkey = EmptyString) then params
            else
              match s2 with
              | String e s3 =>
                  if is_byte e "=" then
                    let '(pvalue, s4) := expectTokenOrQuoted s3 in
                    if bool_decide (pvalue = EmptyString) then params
                    else
                      paramsLoop fuel' (skipSpace s4)
                        (<[strings.ToLower pkey := pvalue]> params)
                  else params
              | EmptyString => params
              end
          else params
      | EmptyString => params
      end
  end.

(** Modelled from the spec: [header.ParseValueAndParams] of the vendored
    package github.com/golang/gddo/httputil/header, which is not among the
    sources.  It reads the primary token of an element and then its
    [name=value] and [name=quoted-string] pairs, separated by semicolons, by
    the token and quoted-string rules; values are stored unquoted and
    unescaped.  As that package does, it puts the primary token and the
    parameter names in lower case, stops at the first pair that does not
    follow the grammar, keeps the pairs read before it, and has no error
    result. *)
Definition ParseValueAndParams (hk : http.Header * string)
  : string * gmap string string :=
  let '(h, key) := hk in
  let s := http.Get h key in
  let '(value, s) := expectTokenSlash s in
  if bool_decide (value = EmptyString) then (value, ∅)
  else (strings.ToLower value,
        paramsLoop (String.length s) (skipSpace s) ∅).

End header.

(** ** time.Duration *)

Module time.

(** A Duration is an int64 count of nanoseconds. *)
Definition wrap64 (z : Z) : Z := (z + 2 ^ 63) mod 2 ^ 64 - 2 ^ 63.

Definition Nanosecond : Z := 1.
Definition Microsecond : Z := 1000 * Nanosecond.
Definition Millisecond : Z := 1000 * Microsecond.

(** Multiplication and division of two Durations, as Go computes them. *)
Definition mul (a b : Z) : Z := wrap64 (a * b).
Definition div (a b : Z) : Z := wrap64 (Z.quot a b).

End time.

(** ** header.go: the data model *)

(** Metric represents a single metric for the Server-Timing header. *)
Record Metric := {
  Name : string;
  Duration : Z;
  Desc : string;
  Extra : gmap string string
}.

(** Header is a parsed Server-Timing header value. The metrics ParseHeader
    builds are distinct objects, one per turn of its loop, so the slice of
    pointers is embedded as the list of the records pointed to. *)
Record Header := { Metrics : list Metric }.

(** The zero value a [var m Metric] starts from; a nil map reads as the empty
    one. *)
Definition zeroMetric : Metric :=
  {| Name := EmptyString; Duration := 0; Desc := EmptyString; Extra := ∅ |}.

(** Go's [error]: nil, or a value that carries a message. *)
Definition error : Type := string.

(** Specified server-timing-param-name values. *)
Definition paramNameDesc : string := "desc".
Definition paramNameDur : string := "dur".

(** headerParams turns a header value into the argument format of the
    httputil/header functions. *)
Definition headerParams (s : string) : http.Header * string :=
  let key := "Key" in
  ({[ key := [s] ]}, key).

(** ** header.go: ParseHeader *)

(** The description step of the loop body. *)
Definition takeDesc (m : Metric) : Metric :=
  match Extra m !! paramNameDesc with
  | Some v =>
      {| Name := Name m; Duration := Duration m; Desc := v;
         Extra := delete paramNameDesc (Extra m) |}
  | None => m
  end.

(** The duration step of the loop body: a millisecond value; when it does not
    parse as an integer the entry stays in Extra. *)
Definition takeDur (m : Metric) : Metric :=
  match Extra m !! paramNameDur with
  | Some v =>
      match strconv.Atoi v with
      | inl intv =>
          {| Name := Name m;
             Duration := time.mul intv time.Millisecond;
             Desc := Desc m;
             Extra := delete paramNameDur (Extra m) |}
      | inr _ => m
      end
  | None => m
  end.

(** The metric made of the primary token and the parameters of one element. *)
Definition metricOf (np : string * gmap string string) : Metric :=
  let m :=
    {| Name := np.1; Duration := Duration zeroMetric;
       Desc := Desc zeroMetric; Extra := np.2 |} in
  takeDur (takeDesc m).

(** The body of ParseHeader's loop for the raw element [raw]. *)
Definition parseMetric (raw : string) : Metric :=
  metricOf (header.ParseValueAndParams (headerParams raw)).

(** ParseHeader parses a Server-Timing header value. *)
Definition ParseHeader (input : string) : Header * option error :=
  let rawMetrics := header.ParseList (headerParams input) in
  let metrics :=
    fold_left (fun metrics raw => (metrics ++ [parseMetric raw])%list)
      rawMetrics [] in
  ({| Metrics := metrics |}, None).

(** String returns the valid Server-Timing header value that can be sent in
    an HTTP response.  (In header.go its body returns the empty string and
    does not read the Header.) *)
Definition Header_String (h : Header) : string := EmptyString.

(** ** metric.go: Metric.String *)

(** The [desc] part: present when Extra has no such key and Desc is set. *)
Definition descParam (m : Metric) : list (string * string) :=
  match Extra m !! paramNameDesc with
  | None =>
      if bool_decide (Desc m = EmptyString) then []
      else [(paramNameDesc, Desc m)]
  | Some _ => []
  end.

(** The [dur] part: present when Extra has no such key and Duration is
    positive; the value is the whole number of milliseconds. *)
Definition durParam (m : Metric) : list (string * string) :=
  match Extra m !! paramNameDur with
  | None =>
      if 0 <? Duration m
      then [(paramNameDur,
             strconv.Itoa (time.div (Duration m) time.Millisecond))]
      else []
  | Some _ => []
  end.

(** The parameters Metric.String encodes after the name, in order. Go ranges
    over a map in an unspecified order; [map_to_list] stands for it. *)
Definition Metric_params (m : Metric) : list (string * string) :=
  descParam m ++ durParam m ++ map_to_list (Extra m).

Section MetricString.

(** headerEncodeParam of header.go writes one [key=value] pair; it is not
    among the sources and Metric.String is taken over any such function. *)
Variable headerEncodeParam : string -> string -> string.

(** String returns the valid Server-Timing metric entry value. *)
Definition Metric_String (m : Metric) : string :=
  strings.Join
    (Name m :: map (fun kv => headerEncodeParam kv.1 kv.2) (Metric_params m))
    ";".

End MetricString.

(** ** GoString *)

(** What a call gives: a value, or a run-time panic. *)
Inductive outcome (A : Type) : Type :=
| Returns (a : A)
| Panics (msg : string).
Arguments Returns {A} a.
Arguments Panics {A} msg.

Definition bind {A B} (o : outcome A) (k : A -> outcome B) : outcome B :=
  match o with
  | Returns a => k a
  | Panics msg => Panics msg
  end.

(** A [*Metric] is nil or points to a Metric. *)
Definition MetricPtr : Type := option Metric.

(** [*m]: a nil pointer cannot be dereferenced. *)
Definition deref (m : MetricPtr) : outcome Metric :=
  match m with
  | Some v => Returns v
  | None => Panics "invalid memory address or nil pointer dereference"
  end.

Section GoString.

(** [fmt.Sprintf] with the verb [%#v] on a Metric value: the Go syntax of
    the struct, which fmt builds by reflection for every value. *)
Variable goSyntax : Metric -> string.

(** fmt.GoStringer so %v works on pointer value. *)
Definition GoString (m : MetricPtr) : outcome string :=
  match m with
  | None => Returns "nil"
  | Some _ => bind (deref m) (fun v => Returns ("*" +:+ goSyntax v))
  end.

End GoString.

(** ** header_test.go: the table headerCases *)

(** [s] between double quotes. *)
Definition quoted (s : string) : string :=
  String dquote (s +:+ String dquote EmptyString).

Definition sqlMetric (d : Z) (desc : string) : Metric :=
  {| Name := "sql-1"; Duration := d; Desc := desc; Extra := ∅ |}.

Definition sqlValue (desc dur : string) : string :=
  "sql-1;desc=" +:+ quoted desc +:+ ";dur=" +:+ dur.

(** The first case, then the ones with a comma and with a semicolon in the
    description, then the one whose number has a fraction. *)
Definition caseSpace : Metric * string :=
  (sqlMetric (100 * time.Millisecond) "MySQL lookup Server",
   sqlValue "MySQL lookup Server" "100").

Definition caseComma : Metric * string :=
  (sqlMetric (100 * time.Millisecond) "MySQL, lookup Server",
   sqlValue "MySQL, lookup Server" "100").

Definition caseSemicolon : Metric * string :=
  (sqlMetric (100 * time.Millisecond) "MySQL; lookup Server",
   sqlValue "MySQL; lookup Server" "100").

Definition caseFloat : Metric * string :=
  (sqlMetric (100100 * time.Microsecond) "MySQL; lookup Server",
   sqlValue "MySQL; lookup Server" "100.1").


(** An element whose quoted description is never closed. *)
Definition unterminated : string :=
  "sql-1;desc=" +:+ String dquote "MySQL lookup".

(** ParseList's scan of [s] ends inside a quoted string. *)
Definition endsInQuote (s : string) : bool :=
  header.quote (header.scanValue [] s).

(** ** Elements of a comma-separated value *)

(** A string that ParseList reads, on its own, as one element that spans it
    all: it is not empty, has no white space at either end, no comma outside
    a quoted string, and every quoted string in it is closed. *)
Definition isElement (e : string) : bool :=
  let st := header.scanValue [] e in
  negb (bool_decide (e = EmptyString)) &&
  (header.begin st =? 0)%nat && (header.endp st =? String.length e)%nat &&
  negb (header.escape st) && negb (header.quote st) &&
  bool_decide (header.result st = []).

(** The scan state of an element read on its own, moved to where the
    element stands in a longer value and put after the elements [r]. *)
Definition shift (k : nat) (r : list string) (st : header.listScan)
  : header.listScan :=
  {| header.begin := (k + header.begin st)%nat;
     header.endp := (k + header.endp st)%nat;
     header.escape := header.escape st;
     header.quote := header.quote st;
     header.result := (r ++ header.result st)%list |}.

Definition bounded (j : nat) (st : header.listScan) : Prop :=
  (header.begin st <= header.endp st)%nat /\ (header.endp st <= j)%nat.

(** Every byte of [s] satisfies [p]. *)
Fixpoint allBytes (p : ascii -> bool) (s : string) : bool :=
  match s with
  | EmptyString => true
  | String c s' => p c && allBytes p s'
  end.

(** Bytes that stand for themselves in a quoted string. *)
Definition isQdtext (c : ascii) : bool :=
  negb (is_byte c dquote) && negb (is_byte c bslash).

(** Bytes that ParseList, outside a quoted string, takes into the element. *)
Definition isPlain (c : ascii) : bool :=
  negb (is_byte c dquote) && negb (header.isSpace c) && negb (is_byte c ",").

(** The element [name;desc="d"]. *)
Definition descElement (name d : string) : string :=
  name +:+ ";desc=" +:+ quoted d.

(** Three elements; the second has a comma inside its quoted description. *)
Definition threeElements : list string :=
  ["cache;dur=23"; sqlValue "MySQL, lookup Server" "100"; "total"].

(** ** Writing a metric and reading it back; the example program *)



Module rand.

(** [rand.Intn n]: a number of [0, n) that the state of the generator, here
    [draw], decides; it panics when [n] is not positive. *)
Definition Intn (draw n : Z) : outcome Z :=
  if n <=? 0 then Panics "invalid argument to Intn"
  else Returns (draw mod n).

End rand.

(** random of the example program: a duration of [min] to [max]
    milliseconds. *)
Definition random (draw min max : Z) : outcome Z :=
  bind (rand.Intn draw (time.wrap64 (max - min)))
    (fun r => Returns (time.mul (time.wrap64 (r + min)) time.Millisecond)).

(** ** ParseHeader: the loop *)

Lemma fold_append_map {A B} (f : A -> B) (l : list A) (acc : list B) :
  fold_left (fun ms raw => (ms ++ [f raw])%list) l acc = (acc ++ map f l)%list.
Proof.
  revert acc. induction l as [|a l IH]; intros acc; simpl.
  - by rewrite app_nil_r.
  - rewrite IH. by rewrite <- app_assoc.
Qed.

Lemma ParseHeader_Metrics (input : string) :
  Metrics (ParseHeader input).1
  = map parseMetric (header.ParseList (headerParams input)).
Proof. unfold ParseHeader. simpl. by rewrite fold_append_map. Qed.

Lemma ParseHeader_nil_error (input : string) : (ParseHeader input).2 = None.
Proof. reflexivity. Qed.

(** ** ParseHeader: the reserved parameters *)

Lemma paramNames_differ : paramNameDesc ≠ paramNameDur.
Proof. discriminate. Qed.

Lemma takeDesc_Extra (m : Metric) :
  Extra (takeDesc m) = delete paramNameDesc (Extra m).
Proof.
  unfold takeDesc. destruct (Extra m !! paramNameDesc) eqn:E; simpl; [done|].
  symmetry. by apply delete_id.
Qed.

Lemma takeDesc_Desc (m : Metric) (v : string) :
  Extra m !! paramNameDesc = Some v -> Desc (takeDesc m) = v.
Proof. intros E. unfold takeDesc. by rewrite E. Qed.

Lemma takeDesc_Duration (m : Metric) : Duration (takeDesc m) = Duration m.
Proof. unfold takeDesc. by destruct (Extra m !! paramNameDesc). Qed.

Lemma takeDesc_Name (m : Metric) : Name (takeDesc m) = Name m.
Proof. unfold takeDesc. by destruct (Extra m !! paramNameDesc). Qed.

Lemma takeDur_Desc (m : Metric) : Desc (takeDur m) = Desc m.
Proof.
  unfold takeDur. destruct (Extra m !! paramNameDur); [|done].
  by destruct (strconv.Atoi _).
Qed.

Lemma takeDur_Name (m : Metric) : Name (takeDur m) = Name m.
Proof.
  unfold takeDur. destruct (Extra m !! paramNameDur); [|done].
  by destruct (strconv.Atoi _).
Qed.

Lemma takeDur_other (m : Metric) (k : string) :
  k ≠ paramNameDur -> Extra (takeDur m) !! k = Extra m !! k.
Proof.
  intros Hk. unfold takeDur. destruct (Extra m !! paramNameDur); [|done].
  destruct (strconv.Atoi _); [|done]. simpl. by rewrite lookup_delete_ne.
Qed.

Lemma takeDur_int (m : Metric) (v : string) (n : Z) :
  Extra m !! paramNameDur = Some v -> strconv.Atoi v = inl n ->
  takeDur m = {| Name := Name m;
                 Duration := time.mul n time.Millisecond;
                 Desc := Desc m;
                 Extra := delete paramNameDur (Extra m) |}.
Proof. intros E A. unfold takeDur. by rewrite E, A. Qed.

Lemma takeDur_not_int (m : Metric) (v : string) (e : strconv.NumError) :
  Extra m !! paramNameDur = Some v -> strconv.Atoi v = inr e ->
  takeDur m = m.
Proof. intros E A. unfold takeDur. by rewrite E, A. Qed.

Lemma metricOf_Name (np : string * gmap string string) :
  Name (metricOf np) = np.1.
Proof. unfold metricOf. by rewrite takeDur_Name, takeDesc_Name. Qed.

Lemma metricOf_no_desc (np : string * gmap string string) :
  Extra (metricOf np) !! paramNameDesc = None.
Proof.
  unfold metricOf. rewrite takeDur_other by apply paramNames_differ.
  rewrite takeDesc_Extra. apply lookup_delete_eq.
Qed.

Lemma metricOf_Desc (np : string * gmap string string) (v : string) :
  np.2 !! paramNameDesc = Some v -> Desc (metricOf np) = v.
Proof.
  intros E. unfold metricOf. rewrite takeDur_Desc. by apply takeDesc_Desc.
Qed.

Lemma metricOf_other (np : string * gmap string string) (k : string) :
  k ≠ paramNameDesc -> k ≠ paramNameDur ->
  Extra (metricOf np) !! k = np.2 !! k.
Proof.
  intros Hd Hu. unfold metricOf. rewrite takeDur_other by done.
  rewrite takeDesc_Extra. by rewrite lookup_delete_ne.
Qed.

(** A [dur] that Atoi reads becomes the duration, in milliseconds with the
    wrap-around of int64, and leaves Extra. *)
Lemma metricOf_dur_int (np : string * gmap string string) (v : string) (n : Z) :
  np.2 !! paramNameDur = Some v -> strconv.Atoi v = inl n ->
  Duration (metricOf np) = time.wrap64 (n * 1000000) /\
  Extra (metricOf np) !! paramNameDur = None.
Proof.
  intros E A. unfold metricOf.
  erewrite takeDur_int; [simpl| |exact A].
  - split; [reflexivity|apply lookup_delete_eq].
  - rewrite takeDesc_Extra. rewrite lookup_delete_ne; [done|].
    apply paramNames_differ.
Qed.

Lemma metricOf_dur_not_int (np : string * gmap string string) (v : string)
    (e : strconv.NumError) :
  np.2 !! paramNameDur = Some v -> strconv.Atoi v = inr e ->
  Duration (metricOf np) = 0 /\
  Extra (metricOf np) !! paramNameDur = Some v.
Proof.
  intros E A. unfold metricOf.
  assert (Extra (takeDesc {| Name := np.1; Duration := Duration zeroMetric;
            Desc := Desc zeroMetric; Extra := np.2 |}) !! paramNameDur
          = Some v) as E'.
  { rewrite takeDesc_Extra. simpl. rewrite lookup_delete_ne; [done|].
    apply paramNames_differ. }
  rewrite (takeDur_not_int _ v e E' A). rewrite takeDesc_Duration.
  by split.
Qed.

(** ** The vendored parser returns: its loop never runs out of turns *)

Lemma skipSpace_length (s : string) :
  (String.length (header.skipSpace s) <= String.length s)%nat.
Proof.
  induction s as [|c s IH]; simpl; [lia|].
  destruct (header.isSpace c); simpl; lia.
Qed.

Lemma span_length (p : ascii -> bool) (s : string) :
  (String.length (header.span p s).2 <= String.length s)%nat.
Proof.
  induction s as [|c s IH]; simpl; [lia|].
  destruct (p c); simpl; [|lia].
  destruct (header.span p s) as [tok rest]. simpl in *. lia.
Qed.

Lemma quotedEscaped_length (s p : string) (esc : bool) :
  (String.length (header.quotedEscaped p esc s).2 <= String.length s)%nat.
Proof.
  revert p esc. induction s as [|b s IH]; intros p esc; simpl; [lia|].
  destruct esc; [specialize (IH (p +:+ String b EmptyString) false); lia|].
  destruct (is_byte b bslash); [specialize (IH p true); lia|].
  destruct (is_byte b dquote); simpl; [lia|].
  specialize (IH (p +:+ String b EmptyString) false); lia.
Qed.

Lemma quotedPlain_length (s pre : string) :
  (String.length (header.quotedPlain pre s).2 <= String.length s)%nat.
Proof.
  revert pre. induction s as [|b s IH]; intros pre; simpl; [lia|].
  destruct (is_byte b dquote); simpl; [lia|].
  destruct (is_byte b bslash).
  - pose proof (quotedEscaped_length s pre true). lia.
  - specialize (IH (pre +:+ String b EmptyString)). lia.
Qed.

Lemma expectTokenOrQuoted_length (s : string) :
  (String.length (header.expectTokenOrQuoted s).2 <= String.length s)%nat.
Proof.
  unfold header.expectTokenOrQuoted, header.expectToken.
  destruct s as [|c s]; [apply span_length|].
  destruct (is_byte c dquote); [|apply span_length].
  pose proof (quotedPlain_length s EmptyString). simpl. lia.
Qed.

(** Any two amounts of fuel that cover the length of [s] give the same
    parameters: the loop ends by itself. *)
Lemma paramsLoop_fuel (n m : nat) (s : string) (params : gmap string string) :
  (String.length s <= n)%nat -> (String.length s <= m)%nat ->
  header.paramsLoop n s params = header.paramsLoop m s params.
Proof.
  revert m s params. induction n as [|n IH]; intros m s params Hn Hm.
  - destruct s; [|simpl in Hn; lia]. by destruct m.
  - destruct m as [|m]; [destruct s; [done|simpl in Hm; lia]|].
    simpl. destruct s as [|c s1]; [done|].
    destruct (is_byte c ";"); [|done].
    pose proof (span_length header.isToken (header.skipSpace s1)) as H1.
    pose proof (skipSpace_length s1) as H0.
    unfold header.expectToken.
    destruct (header.span header.isToken (header.skipSpace s1)) as [pkey s2].
    simpl in H1. case_bool_decide; [done|].
    destruct s2 as [|e s3]; [done|].
    destruct (is_byte e "="); [|done].
    pose proof (expectTokenOrQuoted_length s3) as H3.
    destruct (header.expectTokenOrQuoted s3) as [pvalue s4].
    simpl in H3. case_bool_decide; [done|].
    pose proof (skipSpace_length s4) as H4.
    simpl in Hn, Hm, H1. apply IH; lia.
Qed.

(** ** Metric.String: one entry of Extra under each name *)




(** ** ParseList on the elements of a value *)

Section Scan.

Local Open Scope nat_scope.

Lemma append_cons (x : ascii) (a b : string) :
  String x a +:+ b = String x (a +:+ b).
Proof. reflexivity. Qed.

Lemma append_assoc (a b c : string) : (a +:+ b) +:+ c = a +:+ (b +:+ c).
Proof. induction a as [|x a IH]; [done|]. rewrite !append_cons. by f_equal. Qed.

Lemma append_nil_r (a : string) : a +:+ EmptyString = a.
Proof. induction a as [|x a IH]; [done|]. rewrite append_cons. by f_equal. Qed.

Lemma length_append (a b : string) :
  String.length (a +:+ b) = String.length a + String.length b.
Proof.
  induction a as [|x a IH]; [done|]. rewrite append_cons. simpl. by f_equal.
Qed.

Lemma substring_skip (pre s : string) (a n : nat) :
  substring (String.length pre + a) n (pre +:+ s) = substring a n s.
Proof. induction pre as [|x pre IH]; [done|]. rewrite append_cons. apply IH. Qed.

Lemma substring_prefix (e post : string) (a n : nat) :
  a + n <= String.length e ->
  substring a n (e +:+ post) = substring a n e.
Proof.
  revert a n. induction e as [|x e IH]; intros a n H; simpl in H.
  - assert (a = 0) as -> by lia. assert (n = 0) as -> by lia.
    by destruct post.
  - rewrite append_cons. simpl. destruct a as [|a].
    + destruct n as [|n]; [done|]. f_equal. apply IH. lia.
    + apply IH. lia.
Qed.

Lemma substring_all (e : string) : substring 0 (String.length e) e = e.
Proof. induction e as [|x e IH]; simpl; [done|]. by f_equal. Qed.

(** [slice] reads an element of [pre +:+ e +:+ post] as it reads it in [e]. *)
Lemma slice_inside (pre e post : string) (a b : nat) :
  a <= b -> b <= String.length e ->
  slice (pre +:+ e +:+ post) (String.length pre + a) (String.length pre + b)
  = slice e a b.
Proof.
  intros Hab Hb. unfold slice.
  replace (String.length pre + b - (String.length pre + a)) with (b - a) by lia.
  rewrite substring_skip. apply substring_prefix. lia.
Qed.

Lemma scanByte_bounded (e : string) (j : nat) (b : ascii)
    (st : header.listScan) :
  bounded j st -> bounded (S j) (header.scanByte e j b st).
Proof.
  intros [H1 H2]. unfold header.scanByte, bounded.
  repeat (case_match; simpl); lia.
Qed.

Lemma scanByte_shift (pre e post : string) (r : list string) (j : nat)
    (b : ascii) (st : header.listScan) :
  bounded j st -> j <= String.length e ->
  header.scanByte (pre +:+ e +:+ post) (String.length pre + j) b
    (shift (String.length pre) r st)
  = shift (String.length pre) r (header.scanByte e j b st).
Proof.
  destruct st as [bg en esc qu res]. unfold bounded. simpl.
  intros [H1 H2] Hj. unfold header.scanByte, shift. simpl.
  destruct esc; simpl; [f_equal; lia|].
  destruct qu; simpl; [f_equal; lia|].
  destruct (is_byte b dquote); simpl; [f_equal; lia|].
  replace (String.length pre + bg =? String.length pre + en)
    with (bg =? en).
  2:{ destruct (Nat.eqb_spec bg en);
        symmetry; [apply Nat.eqb_eq|apply Nat.eqb_neq]; lia. }
  replace (String.length pre + bg <? String.length pre + en)
    with (bg <? en).
  2:{ destruct (Nat.ltb_spec bg en);
        symmetry; [apply Nat.ltb_lt|apply Nat.ltb_ge]; lia. }
  destruct (header.isSpace b); simpl.
  { destruct (bg =? en); simpl; [f_equal; lia|done]. }
  destruct (is_byte b ","); simpl; [|f_equal; lia].
  f_equal; [lia|lia|].
  destruct (bg <? en); [|done].
  rewrite slice_inside by lia. by rewrite <- app_assoc.
Qed.

(** Reading the bytes [x] of an element inside a longer value goes as
    reading them in the element alone. *)
Lemma scanFrom_shift (pre e post : string) (r : list string) (x : string)
    (j : nat) (st : header.listScan) :
  bounded j st -> j + String.length x = String.length e ->
  header.scanFrom (pre +:+ e +:+ post) (String.length pre + j) (x +:+ post)
    (shift (String.length pre) r st)
  = header.scanFrom (pre +:+ e +:+ post)
      (String.length pre + j + String.length x) post
      (shift (String.length pre) r (header.scanFrom e j x st)).
Proof.
  revert j st. induction x as [|b x IH]; intros j st Hb Hj.
  - simpl. f_equal. lia.
  - rewrite append_cons. simpl in *.
    rewrite scanByte_shift by (done || lia).
    replace (S (String.length pre + j)) with (String.length pre + S j) by lia.
    rewrite IH; [f_equal; lia| |lia]. by apply scanByte_bounded.
Qed.

Lemma isElement_scan (e : string) :
  isElement e = true ->
  e <> EmptyString /\
  header.scanFrom e 0 e
    {| header.begin := 0; header.endp := 0; header.escape := false;
       header.quote := false; header.result := [] |}
  = {| header.begin := 0; header.endp := String.length e;
       header.escape := false; header.quote := false;
       header.result := [] |}.
Proof.
  unfold isElement, header.scanValue. intros H.
  destruct (header.scanFrom e 0 e _) as [bg en esc qu res]. simpl in H.
  repeat (apply andb_true_iff in H as [H ?]).
  apply negb_true_iff, bool_decide_eq_false in H.
  split; [done|]. f_equal.
  - by apply Nat.eqb_eq.
  - by apply Nat.eqb_eq.
  - by apply negb_true_iff.
  - by apply negb_true_iff.
  - by apply bool_decide_eq_true in H0.
Qed.

(** An element at offset [length pre] of a value is read as one element. *)
Lemma scanFrom_element (pre e post : string) (r : list string) :
  isElement e = true ->
  header.scanFrom (pre +:+ e +:+ post) (String.length pre) (e +:+ post)
    {| header.begin := String.length pre; header.endp := String.length pre;
       header.escape := false; header.quote := false; header.result := r |}
  = header.scanFrom (pre +:+ e +:+ post)
      (String.length pre + String.length e) post
      {| header.begin := String.length pre;
         header.endp := String.length pre + String.length e;
         header.escape := false; header.quote := false;
         header.result := r |}.
Proof.
  intros [_ He]%isElement_scan.
  pose proof (scanFrom_shift pre e post r e 0
    {| header.begin := 0; header.endp := 0; header.escape := false;
       header.quote := false; header.result := [] |}) as H.
  rewrite He in H. unfold shift in H. simpl in H.
  rewrite !Nat.add_0_r, app_nil_r in H. apply H; [|done].
  unfold bounded. simpl. lia.
Qed.

Lemma scanFrom_element_in (s rest pre e post : string) (r : list string) :
  s = pre +:+ e +:+ post -> rest = e +:+ post -> isElement e = true ->
  header.scanFrom s (String.length pre) rest
    {| header.begin := String.length pre; header.endp := String.length pre;
       header.escape := false; header.quote := false; header.result := r |}
  = header.scanFrom s (String.length pre + String.length e) post
      {| header.begin := String.length pre;
         header.endp := String.length pre + String.length e;
         header.escape := false; header.quote := false;
         header.result := r |}.
Proof. intros -> ->. apply scanFrom_element. Qed.

Lemma slice_element (pre e post : string) :
  slice (pre +:+ e +:+ post) (String.length pre)
    (String.length pre + String.length e) = e.
Proof.
  pose proof (slice_inside pre e post 0 (String.length e)) as H.
  rewrite Nat.add_0_r in H. rewrite H by lia.
  unfold slice. rewrite Nat.sub_0_r. apply substring_all.
Qed.

Lemma length_element (e : string) :
  isElement e = true -> 0 < String.length e.
Proof.
  intros [Hne _]%isElement_scan. destruct e; [done|simpl; lia].
Qed.

Lemma Join_cons (e e' : string) (es : list string) (sep : string) :
  strings.Join (e :: e' :: es) sep = e +:+ sep +:+ strings.Join (e' :: es) sep.
Proof. reflexivity. Qed.

Lemma scanFrom_cons (s : string) (i : nat) (b : ascii) (x : string)
    (st : header.listScan) :
  header.scanFrom s i (String b x) st
  = header.scanFrom s (S i) x (header.scanByte s i b st).
Proof. reflexivity. Qed.

(** A comma outside a quoted string ends the element being read. *)
Lemma scanByte_comma (s : string) (i bg en : nat) (r : list string) :
  header.scanByte s i ","
    {| header.begin := bg; header.endp := en; header.escape := false;
       header.quote := false; header.result := r |}
  = {| header.begin := S i; header.endp := S i; header.escape := false;
       header.quote := false;
       header.result := if bg <? en then (r ++ [slice s bg en])%list else r |}.
Proof. reflexivity. Qed.

(** The end of ParseList's work on a value: the element being read, if any,
    is added to the elements found. *)
Lemma scan_Join (es : list string) (e pre : string) (r : list string) :
  Forall (fun e => isElement e = true) (e :: es) ->
  let s := pre +:+ strings.Join (e :: es) "," in
  let st :=
    header.scanFrom s (String.length pre) (strings.Join (e :: es) ",")
      {| header.begin := String.length pre; header.endp := String.length pre;
         header.escape := false; header.quote := false;
         header.result := r |} in
  (if header.begin st <? header.endp st
   then (header.result st ++ [slice s (header.begin st) (header.endp st)])%list
   else header.result st) = (r ++ e :: es)%list.
Proof.
  revert e pre r. induction es as [|e' es IH]; intros e pre r Hall.
  - apply Forall_cons in Hall as [He _]. simpl.
    rewrite (scanFrom_element_in _ _ pre e EmptyString r)
      by (by rewrite ?append_nil_r).
    simpl. pose proof (length_element e He) as Hlen.
    destruct (Nat.ltb_spec (String.length pre)
                (String.length pre + String.length e)); [|lia].
    pose proof (slice_element pre e EmptyString) as Hs.
    rewrite append_nil_r in Hs. by rewrite Hs.
  - apply Forall_cons in Hall as [He Hall]. rewrite Join_cons. cbv zeta.
    specialize (IH e' (pre +:+ e +:+ ",") (r ++ [e])%list Hall).
    cbv zeta in IH. revert IH.
    set (J := strings.Join (e' :: es) ","). intros IH.
    rewrite (scanFrom_element_in _ _ pre e ("," +:+ J) r) by done.
    change ("," +:+ J) with (String "," J).
    rewrite scanFrom_cons, scanByte_comma.
    pose proof (length_element e He) as Hlen.
    destruct (Nat.ltb_spec (String.length pre)
                (String.length pre + String.length e)); [|lia].
    rewrite (slice_element pre e (String "," J)).
    rewrite !append_assoc in IH.
    rewrite !length_append in IH. simpl String.length in IH.
    replace (String.length pre + (String.length e + 1))
      with (S (String.length pre + String.length e)) in IH by lia.
    change ("," +:+ J) with (String "," J) in IH.
    rewrite IH. by rewrite <- app_assoc.
Qed.

Lemma ParseList_headerParams (s : string) :
  header.ParseList (headerParams s) = header.parseListValue [] s.
Proof.
  unfold header.ParseList, headerParams.
  change (http.CanonicalHeaderKey "Key") with "Key".
  by rewrite lookup_singleton_eq.
Qed.

(** ParseList gives back the elements of a comma-separated value, in the
    order of the text. *)
Lemma ParseList_Join (es : list string) :
  Forall (fun e => isElement e = true) es ->
  header.ParseList (headerParams (strings.Join es ",")) = es.
Proof.
  intros Hall. rewrite ParseList_headerParams.
  destruct es as [|e es]; [done|].
  apply (scan_Join es e EmptyString [] Hall).
Qed.

End Scan.

(** ** Quoted descriptions *)

Section Quoted.

Local Open Scope nat_scope.

Lemma isToken_isPlain (c : ascii) : header.isToken c = true -> isPlain c = true.
Proof.
  destruct c as [[] [] [] [] [] [] [] []]; vm_compute; congruence.
Qed.

Lemma allBytes_impl (p q : ascii -> bool) (s : string) :
  (forall c, p c = true -> q c = true) ->
  allBytes p s = true -> allBytes q s = true.
Proof.
  intros Hpq. induction s as [|c s IH]; simpl; [done|].
  intros [Hc Hs]%andb_true_iff. apply andb_true_iff. auto.
Qed.

Lemma span_app (p : ascii -> bool) (a : string) (c : ascii) (rest : string) :
  allBytes p a = true -> p c = false ->
  header.span p (a +:+ String c rest) = (a, String c rest).
Proof.
  intros Ha Hc. induction a as [|x a IH].
  - simpl. by rewrite Hc.
  - simpl in Ha. apply andb_true_iff in Ha as [Hx Ha].
    rewrite append_cons. simpl. rewrite Hx, (IH Ha). done.
Qed.

Lemma quotedPlain_app (d pre rest : string) :
  allBytes isQdtext d = true ->
  header.quotedPlain pre (d +:+ String dquote rest) = (pre +:+ d, rest).
Proof.
  revert pre. induction d as [|x d IH]; intros pre Hd.
  - simpl. change (is_byte dquote dquote) with true. simpl.
    by rewrite append_nil_r.
  - simpl in Hd. apply andb_true_iff in Hd as [Hx Hd].
    unfold isQdtext in Hx. apply andb_true_iff in Hx as [Hq Hb].
    apply negb_true_iff in Hq, Hb.
    rewrite append_cons. simpl. rewrite Hq, Hb. rewrite (IH _ Hd).
    f_equal. rewrite append_assoc. done.
Qed.

Lemma scan_plain (s x rest : string) (i bg en : nat) (r : list string) :
  allBytes isPlain x = true ->
  header.scanFrom s i (x +:+ rest)
    {| header.begin := bg; header.endp := en; header.escape := false;
       header.quote := false; header.result := r |}
  = header.scanFrom s (i + String.length x) rest
      {| header.begin := bg;
         header.endp := match x with
                        | EmptyString => en
                        | _ => i + String.length x
                        end;
         header.escape := false; header.quote := false;
         header.result := r |}.
Proof.
  revert i en. induction x as [|c x IH]; intros i en Hx.
  - simpl. by rewrite Nat.add_0_r.
  - simpl in Hx. apply andb_true_iff in Hx as [Hc Hx].
    unfold isPlain in Hc. apply andb_true_iff in Hc as [Hc Hcomma].
    apply andb_true_iff in Hc as [Hq Hsp].
    apply negb_true_iff in Hq, Hsp, Hcomma.
    rewrite append_cons, scanFrom_cons. unfold header.scanByte. simpl.
    rewrite Hq, Hsp, Hcomma. rewrite (IH _ _ Hx).
    replace (S i + String.length x) with (i + S (String.length x)) by lia.
    do 2 f_equal. destruct x; simpl; lia.
Qed.

Lemma scan_quoted (s x rest : string) (i bg en : nat) (r : list string) :
  allBytes isQdtext x = true ->
  header.scanFrom s i (x +:+ rest)
    {| header.begin := bg; header.endp := en; header.escape := false;
       header.quote := true; header.result := r |}
  = header.scanFrom s (i + String.length x) rest
      {| header.begin := bg;
         header.endp := match x with
                        | EmptyString => en
                        | _ => i + String.length x
                        end;
         header.escape := false; header.quote := true;
         header.result := r |}.
Proof.
  revert i en. induction x as [|c x IH]; intros i en Hx.
  - simpl. by rewrite Nat.add_0_r.
  - simpl in Hx. apply andb_true_iff in Hx as [Hc Hx].
    unfold isQdtext in Hc. apply andb_true_iff in Hc as [Hq Hb].
    apply negb_true_iff in Hq, Hb.
    rewrite append_cons, scanFrom_cons. unfold header.scanByte. simpl.
    rewrite Hq, Hb. simpl. rewrite (IH _ _ Hx).
    replace (S i + String.length x) with (i + S (String.length x)) by lia.
    do 2 f_equal. destruct x; simpl; lia.
Qed.

(** ParseList reads [name;desc="d"] as one element, whatever commas,
    semicolons and blanks the description holds. *)
Lemma isElement_descElement (name d : string) :
  allBytes header.isToken name = true -> name <> EmptyString ->
  allBytes isQdtext d = true ->
  isElement (descElement name d) = true.
Proof.
  intros Hname Hne Hd.
  assert (header.scanValue [] (descElement name d)
          = {| header.begin := 0;
               header.endp := String.length (descElement name d);
               header.escape := false; header.quote := false;
               header.result := [] |}) as Hscan.
  { unfold header.scanValue. generalize (descElement name d) at 1 as s.
    intros s. unfold descElement, quoted.
    rewrite scan_plain
      by (eapply allBytes_impl; [apply isToken_isPlain|done]).
    change (";desc=" +:+ String dquote (d +:+ String dquote EmptyString))
      with (";desc=" +:+ (String dquote (d +:+ String dquote EmptyString))).
    rewrite scan_plain by reflexivity.
    rewrite scanFrom_cons. unfold header.scanByte at 1. simpl.
    change (is_byte dquote dquote) with true. cbv iota.
    rewrite scan_quoted by done.
    rewrite scanFrom_cons. unfold header.scanByte at 1. simpl.
    f_equal. rewrite !length_append. simpl. rewrite length_append. simpl.
    lia. }
  unfold isElement. rewrite Hscan. simpl.
  rewrite !Nat.eqb_refl. simpl.
  case_bool_decide as He; [|done].
  unfold descElement in He. destruct name; [done|discriminate].
Qed.

Lemma ParseList_element (e : string) :
  isElement e = true -> header.ParseList (headerParams e) = [e].
Proof.
  intros He. apply (ParseList_Join [e]). by repeat constructor.
Qed.

Lemma Get_headerParams (s : string) :
  http.Get (headerParams s).1 (headerParams s).2 = s.
Proof.
  unfold http.Get, headerParams. simpl.
  change (http.CanonicalHeaderKey "Key") with "Key".
  by rewrite lookup_singleton_eq.
Qed.

(** One turn of the loop of ParseValueAndParams that reads a pair. *)
Lemma paramsLoop_pair (fuel : nat) (s1 s3 s4 pkey pvalue : string)
    (params : gmap string string) :
  header.expectToken (header.skipSpace s1) = (pkey, String "=" s3) ->
  pkey <> EmptyString ->
  header.expectTokenOrQuoted s3 = (pvalue, s4) ->
  pvalue <> EmptyString ->
  header.paramsLoop (S fuel) (String ";" s1) params
  = header.paramsLoop fuel (header.skipSpace s4)
      (<[strings.ToLower pkey := pvalue]> params).
Proof.
  intros Hk Hkne Hv Hvne. simpl. change (is_byte ";" ";") with true.
  cbv iota. rewrite Hk. case_bool_decide; [done|].
  change (is_byte "=" "=") with true. cbv iota. rewrite Hv.
  by case_bool_decide.
Qed.

Lemma paramsLoop_end (fuel : nat) (params : gmap string string) :
  header.paramsLoop fuel EmptyString params = params.
Proof. by destruct fuel. Qed.

(** ParseValueAndParams gives the description of [name;desc="d"] back
    without its quotes. *)
Lemma ParseValueAndParams_descElement (name d : string) :
  allBytes header.isToken name = true -> name <> EmptyString ->
  allBytes isQdtext d = true -> d <> EmptyString ->
  header.ParseValueAndParams (headerParams (descElement name d))
  = (strings.ToLower name, {[ paramNameDesc := d ]}).
Proof.
  intros Hname Hne Hd Hdne. unfold header.ParseValueAndParams.
  pose proof (Get_headerParams (descElement name d)) as HG.
  destruct (headerParams (descElement name d)) as [h key]. simpl in HG.
  rewrite HG. unfold header.expectTokenSlash, descElement.
  change (";desc=" +:+ quoted d) with (String ";" ("desc=" +:+ quoted d)).
  rewrite span_app; [|by apply (allBytes_impl header.isToken);
                        [intros c ->|]|reflexivity].
  case_bool_decide; [done|]. f_equal.
  simpl header.skipSpace. simpl String.length.
  rewrite (paramsLoop_pair _ _ (quoted d) EmptyString "desc" d).
  - simpl header.skipSpace. apply paramsLoop_end.
  - reflexivity.
  - discriminate.
  - unfold header.expectTokenOrQuoted, quoted.
    change (is_byte dquote dquote) with true. cbv iota.
    by rewrite quotedPlain_app.
  - done.
Qed.

End Quoted.

(** ** The claims *)

(** C1: the metric sql-1 of 100ms described as MySQL lookup Server should
    serialize to the first header value of headerCases, and the one of
    100.1ms to the value ending in dur=100.1, which should parse back to the
    same metric.  The code does neither: Header.String returns the empty
    string for both, Metric.String writes the whole number of milliseconds
    (dur=100) whatever headerEncodeParam is, and ParseHeader leaves dur=100.1
    in Extra with a zero duration. *)
Theorem headerCases_String_and_parse_diverge :
  Header_String {| Metrics := [caseSpace.1] |} = EmptyString /\
  Header_String {| Metrics := [caseFloat.1] |} = EmptyString /\
  (forall enc : string -> string -> string,
     Metric_String enc caseFloat.1
     = strings.Join
         ["sql-1"; enc "desc" "MySQL; lookup Server"; enc "dur" "100"] ";") /\
  ParseHeader caseFloat.2
  = ({| Metrics :=
          [ {| Name := "sql-1"; Duration := 0;
               Desc := "MySQL; lookup Server";
               Extra := {[ "dur" := "100.1" ]} |} ] |}, None) /\
  (ParseHeader caseFloat.2).1 ≠ {| Metrics := [caseFloat.1] |}.
Proof.
  split; [reflexivity|]. split; [reflexivity|].
  split; [intros enc; vm_compute; reflexivity|].
  split; [vm_compute; reflexivity|].
  vm_compute. discriminate.
Qed.

(** C2: a dur value with a fraction should become the duration and leave
    Extra.  ParseHeader reads dur with strconv.Atoi, so for the element
    db;dur=12.5 the value stays in Extra and the duration stays zero. *)
Theorem dur_fraction_stays_in_Extra :
  strconv.Atoi "12.5" = inr strconv.ErrSyntax /\
  ParseHeader "db;dur=12.5"
  = ({| Metrics :=
          [ {| Name := "db"; Duration := 0; Desc := EmptyString;
               Extra := {[ "dur" := "12.5" ]} |} ] |}, None).
Proof. split; vm_compute; reflexivity. Qed.

(** C3, as stated, fails: the element [unterminated] opens a quoted string
    that is never closed, and ParseHeader returns a nil error with a Header
    that holds the metric sql-1. *)
Lemma unterminated_quote_is_accepted :
  endsInQuote unterminated = true /\
  ParseHeader unterminated
  = ({| Metrics := [ {| Name := "sql-1"; Duration := 0; Desc := EmptyString;
                        Extra := ∅ |} ] |}, None).
Proof. split; vm_compute; reflexivity. Qed.

(** C3, amended: for every input string, also one whose list structure is
    malformed, ParseHeader returns a nil error together with a Header that
    holds one metric for each element ParseList found; it has no format
    error. *)
Theorem ParseHeader_never_returns_an_error (input : string) :
  ParseHeader input
  = ({| Metrics := map parseMetric (header.ParseList (headerParams input)) |},
     None).
Proof. unfold ParseHeader. by rewrite fold_append_map. Qed.

(** C4: a description with a comma should be written as a quoted string and
    read back unchanged.  Header.String returns the empty string for the
    comma case of headerCases, and parsing that gives no metric at all. *)
Theorem comma_description_is_not_serialized :
  Header_String {| Metrics := [caseComma.1] |} = EmptyString /\
  ParseHeader (Header_String {| Metrics := [caseComma.1] |})
  = ({| Metrics := [] |}, None).
Proof. split; vm_compute; reflexivity. Qed.




(** C7: for every element ParseList finds, when its parsed parameters hold
    desc the metric built from it has that (unquoted) value as Desc, and no
    metric ParseHeader returns keeps a desc entry in Extra. *)
Theorem desc_moves_from_Extra_to_Desc (input : string) :
  (forall m : Metric,
     m ∈ Metrics (ParseHeader input).1 -> Extra m !! paramNameDesc = None) /\
  (forall (i : nat) (raw : string),
     header.ParseList (headerParams input) !! i = Some raw ->
     exists m : Metric,
       Metrics (ParseHeader input).1 !! i = Some m /\
       forall v : string,
         (header.ParseValueAndParams (headerParams raw)).2 !! paramNameDesc
         = Some v ->
         Desc m = v).
Proof.
  rewrite ParseHeader_Metrics. split.
  - intros m Hm. apply list_elem_of_fmap in Hm as (raw & -> & _).
    apply metricOf_no_desc.
  - intros i raw Hraw. exists (parseMetric raw). split.
    + change (map parseMetric ?l) with (parseMetric <$> l).
      by rewrite list_lookup_fmap, Hraw.
    + intros v Hv. by apply metricOf_Desc.
Qed.

(** The semicolon case of headerCases: the quoted description is stored
    without its quotes and Extra is left empty. *)
Lemma desc_moves_from_Extra_to_Desc_witness :
  exists m : Metric,
    Metrics (ParseHeader caseSemicolon.2).1 !! 0%nat = Some m /\
    Desc m = "MySQL; lookup Server" /\
    Extra m !! paramNameDesc = None.
Proof.
  destruct (desc_moves_from_Extra_to_Desc caseSemicolon.2) as [Hno Hat].
  destruct (Hat 0%nat caseSemicolon.2) as (m & Hm & Hdesc).
  { vm_compute. reflexivity. }
  exists m. split; [exact Hm|]. split.
  - apply Hdesc. vm_compute. reflexivity.
  - apply Hno. apply list_elem_of_lookup. exists 0%nat. exact Hm.
Defined.

(** C8: the metrics of the Header ParseHeader returns are, position by
    position, the metrics of the elements ParseList found in the input, as
    many and in the same order; and when the input is a list of elements
    separated by commas, they are the metrics of these elements in the order
    of the text. *)
Theorem ParseHeader_keeps_the_order :
  (forall input : string,
     length (Metrics (ParseHeader input).1)
     = length (header.ParseList (headerParams input)) /\
     forall i : nat,
       Metrics (ParseHeader input).1 !! i
       = parseMetric <$> header.ParseList (headerParams input) !! i) /\
  (forall es : list string,
     Forall (fun e => isElement e = true) es ->
     Metrics (ParseHeader (strings.Join es ",")).1 = map parseMetric es).
Proof.
  split.
  - intros input. rewrite ParseHeader_Metrics. split.
    + apply length_map.
    + intros i. change (map parseMetric ?l) with (parseMetric <$> l).
      apply list_lookup_fmap.
  - intros es Hes. rewrite ParseHeader_Metrics. by rewrite ParseList_Join.
Qed.

(** The three metrics of [threeElements] come out in the order written. *)
Lemma ParseHeader_keeps_the_order_witness :
  Forall (fun e => isElement e = true) threeElements /\
  Name <$> Metrics (ParseHeader (strings.Join threeElements ",")).1
  = ["cache"; "sql-1"; "total"].
Proof.
  assert (Forall (fun e => isElement e = true) threeElements) as Hes
    by (repeat constructor; vm_compute; reflexivity).
  split; [exact Hes|].
  rewrite (proj2 ParseHeader_keeps_the_order threeElements Hes).
  vm_compute. reflexivity.
Defined.

(** C9: GoString of a nil pointer returns the string nil, and GoString
    returns a string, without a panic, for every pointer. *)
Theorem GoString_never_panics (goSyntax : Metric -> string) :
  GoString goSyntax None = Returns "nil" /\
  forall m : MetricPtr, exists s : string, GoString goSyntax m = Returns s.
Proof.
  split; [reflexivity|].
  intros [v|]; simpl; eauto.
Qed.

(** C10: some input makes ParseHeader succeed with a negative duration: the
    element db;dur=-100 gives a metric of -100 milliseconds whose Extra has
    no dur entry. *)
Theorem negative_dur_is_accepted :
  exists (input : string) (m : Metric),
    ParseHeader input = ({| Metrics := [m] |}, None) /\
    Duration m = -100 * time.Millisecond /\
    Duration m < 0 /\
    Extra m !! paramNameDur = None.
Proof.
  exists "db;dur=-100",
    {| Name := "db"; Duration := -100 * time.Millisecond;
       Desc := EmptyString; Extra := ∅ |}.
  repeat split; vm_compute; reflexivity.
Qed.

(** ** Further properties of ParseHeader and Metric.String *)

(** X1: a dur value that strconv.Atoi reads becomes the duration, as that many
    milliseconds in int64 arithmetic, and leaves Extra. *)
Theorem integer_dur_becomes_Duration (input raw v : string) (i : nat) (n : Z) :
  header.ParseList (headerParams input) !! i = Some raw ->
  (header.ParseValueAndParams (headerParams raw)).2 !! paramNameDur = Some v ->
  strconv.Atoi v = inl n ->
  exists m : Metric,
    Metrics (ParseHeader input).1 !! i = Some m /\
    Duration m = time.wrap64 (n * 1000000) /\
    Extra m !! paramNameDur = None.
Proof.
  intros Hraw Hv Hn. exists (parseMetric raw). split.
  - rewrite ParseHeader_Metrics.
    change (map parseMetric ?l) with (parseMetric <$> l).
    by rewrite list_lookup_fmap, Hraw.
  - by apply (metricOf_dur_int _ v n).
Qed.

Lemma integer_dur_becomes_Duration_witness :
  exists m : Metric,
    Metrics (ParseHeader "db;dur=53").1 !! 0%nat = Some m /\
    Duration m = 53 * time.Millisecond /\
    Extra m !! paramNameDur = None.
Proof.
  apply (integer_dur_becomes_Duration "db;dur=53" "db;dur=53" "53" 0 53);
    vm_compute; reflexivity.
Defined.

(** X2: a dur value that strconv.Atoi does not read stays in Extra as it is; the
    duration stays zero and ParseHeader returns no error. *)
Theorem unreadable_dur_stays_in_Extra (input raw v : string) (i : nat)
    (e : strconv.NumError) :
  header.ParseList (headerParams input) !! i = Some raw ->
  (header.ParseValueAndParams (headerParams raw)).2 !! paramNameDur = Some v ->
  strconv.Atoi v = inr e ->
  (ParseHeader input).2 = None /\
  exists m : Metric,
    Metrics (ParseHeader input).1 !! i = Some m /\
    Duration m = 0 /\
    Extra m !! paramNameDur = Some v.
Proof.
  intros Hraw Hv He. split; [reflexivity|].
  exists (parseMetric raw). split.
  - rewrite ParseHeader_Metrics.
    change (map parseMetric ?l) with (parseMetric <$> l).
    by rewrite list_lookup_fmap, Hraw.
  - by apply (metricOf_dur_not_int _ v e).
Qed.

Lemma unreadable_dur_stays_in_Extra_witness :
  (ParseHeader "db;dur=soon").2 = None /\
  exists m : Metric,
    Metrics (ParseHeader "db;dur=soon").1 !! 0%nat = Some m /\
    Duration m = 0 /\
    Extra m !! paramNameDur = Some "soon".
Proof.
  apply (unreadable_dur_stays_in_Extra "db;dur=soon" "db;dur=soon" "soon" 0
           strconv.ErrSyntax);
    vm_compute; reflexivity.
Defined.

(** X3: the name of a metric is the primary token of its element, and every
    parameter other than desc and dur is in Extra with its parsed value. *)
Theorem other_parameters_stay_in_Extra (input raw : string) (i : nat) :
  header.ParseList (headerParams input) !! i = Some raw ->
  exists m : Metric,
    Metrics (ParseHeader input).1 !! i = Some m /\
    Name m = (header.ParseValueAndParams (headerParams raw)).1 /\
    forall k : string,
      k ≠ paramNameDesc -> k ≠ paramNameDur ->
      Extra m !! k
      = (header.ParseValueAndParams (headerParams raw)).2 !! k.
Proof.
  intros Hraw. exists (parseMetric raw). split; [|split].
  - rewrite ParseHeader_Metrics.
    change (map parseMetric ?l) with (parseMetric <$> l).
    by rewrite list_lookup_fmap, Hraw.
  - apply metricOf_Name.
  - intros k Hd Hu. by apply metricOf_other.
Qed.

Lemma other_parameters_stay_in_Extra_witness :
  exists m : Metric,
    Metrics (ParseHeader "db;dur=53;host=a1").1 !! 0%nat = Some m /\
    Name m = "db" /\
    Extra m !! "host" = Some "a1".
Proof.
  destruct (other_parameters_stay_in_Extra
              "db;dur=53;host=a1" "db;dur=53;host=a1" 0)
    as (m & Hm & Hname & Hextra).
  { vm_compute. reflexivity. }
  exists m. split; [exact Hm|]. split.
  - rewrite Hname. vm_compute. reflexivity.
  - rewrite Hextra by discriminate. vm_compute. reflexivity.
Defined.




(** X6: a quoted description, with whatever commas, semicolons and blanks in
    it, is parsed back to the same description, and desc leaves Extra. *)
Theorem quoted_desc_parses_back (name d : string) :
  allBytes header.isToken name = true -> name <> EmptyString ->
  allBytes isQdtext d = true -> d <> EmptyString ->
  ParseHeader (descElement name d)
  = ({| Metrics := [ {| Name := strings.ToLower name; Duration := 0;
                        Desc := d; Extra := ∅ |} ] |}, None).
Proof.
  intros Hname Hne Hd Hdne. unfold ParseHeader.
  rewrite ParseList_element by by apply isElement_descElement.
  simpl. unfold parseMetric.
  rewrite ParseValueAndParams_descElement by done.
  unfold metricOf, takeDesc. simpl.
  rewrite lookup_singleton_eq, delete_singleton_eq.
  unfold takeDur. simpl. by rewrite lookup_empty.
Qed.

Lemma quoted_desc_parses_back_witness :
  ParseHeader (descElement "sql-1" "MySQL, lookup; Server")
  = ({| Metrics := [ {| Name := "sql-1"; Duration := 0;
                        Desc := "MySQL, lookup; Server"; Extra := ∅ |} ] |},
     None).
Proof.
  apply (quoted_desc_parses_back "sql-1" "MySQL, lookup; Server");
    (vm_compute; reflexivity) || discriminate.
Defined.

(** ** strconv: Atoi reads what Itoa writes *)

Section Strconv.

Lemma wrap64_small (z : Z) :
  strconv.minInt <= z <= strconv.maxInt -> time.wrap64 z = z.
Proof.
  unfold strconv.minInt, strconv.maxInt, time.wrap64. intros H.
  rewrite Z.mod_small; lia.
Qed.






End Strconv.

(** ** Metric.String read back by ParseHeader *)

Section Reread.

Lemma in_keys_to_list (ex : gmap string string) (k : string) :
  k ∈ (map_to_list ex).*1 -> is_Some (ex !! k).
Proof.
  intros ([k' v] & -> & Hin)%list_elem_of_fmap.
  apply elem_of_map_to_list in Hin. eauto.
Qed.

Lemma descParam_keys (m : Metric) (k : string) :
  k ∈ (descParam m).*1 -> k = paramNameDesc /\ Extra m !! paramNameDesc = None.
Proof.
  unfold descParam. destruct (Extra m !! paramNameDesc); simpl.
  - by intros ?%elem_of_nil.
  - case_bool_decide; simpl; [by intros ?%elem_of_nil|].
    by intros ->%list_elem_of_singleton.
Qed.

Lemma durParam_keys (m : Metric) (k : string) :
  k ∈ (durParam m).*1 -> k = paramNameDur /\ Extra m !! paramNameDur = None.
Proof.
  unfold durParam. destruct (Extra m !! paramNameDur); simpl.
  - by intros ?%elem_of_nil.
  - destruct (0 <? Duration m); simpl; [|by intros ?%elem_of_nil].
    by intros ->%list_elem_of_singleton.
Qed.

Lemma descParam_NoDup (m : Metric) : NoDup (descParam m).*1.
Proof.
  unfold descParam. destruct (Extra m !! paramNameDesc); simpl.
  - constructor.
  - case_bool_decide; simpl; [constructor|apply NoDup_singleton].
Qed.

Lemma durParam_NoDup (m : Metric) : NoDup (durParam m).*1.
Proof.
  unfold durParam. destruct (Extra m !! paramNameDur); simpl.
  - constructor.
  - destruct (0 <? Duration m); simpl; [apply NoDup_singleton|constructor].
Qed.

Lemma Metric_params_NoDup (m : Metric) : NoDup (Metric_params m).*1.
Proof.
  unfold Metric_params. rewrite !fmap_app.
  apply NoDup_app. split; [apply descParam_NoDup|]. split.
  - intros k [-> Hd]%descParam_keys [Hk|Hk]%elem_of_app.
    + apply durParam_keys in Hk as [Hk _]. by apply paramNames_differ.
    + apply in_keys_to_list in Hk as [v Hv]. congruence.
  - apply NoDup_app. split; [apply durParam_NoDup|]. split.
    + intros k [-> Hu]%durParam_keys Hk.
      apply in_keys_to_list in Hk as [v Hv]. congruence.
    + apply NoDup_fst_map_to_list.
Qed.




End Reread.

(** X7: Metric.String never writes two parameters of the same name, whatever
    the fields and the entries of Extra are. *)
Theorem Metric_String_names_no_parameter_twice (m : Metric) :
  NoDup (Metric_params m).*1.
Proof. apply Metric_params_NoDup. Qed.

(** X8: the parts Metric.String joins (the name and the encoded parameters)
    are never more than the capacity it allocates for them, the size of
    Extra plus three. *)
Theorem Metric_String_parts_fit_capacity
    (enc : string -> string -> string) (m : Metric) :
  (length (Name m :: map (fun kv => enc kv.1 kv.2) (Metric_params m))
   <= size (Extra m) + 3)%nat.
Proof.
  simpl. rewrite length_map. unfold Metric_params.
  rewrite !length_app, length_map_to_list.
  assert (length (descParam m) <= 1)%nat.
  { unfold descParam. destruct (Extra m !! paramNameDesc); simpl; [lia|].
    case_bool_decide; simpl; lia. }
  assert (length (durParam m) <= 1)%nat.
  { unfold durParam. destruct (Extra m !! paramNameDur); simpl; [lia|].
    destruct (0 <? Duration m); simpl; lia. }
  lia.
Qed.





Lemma Atoi_range (v : string) (n : Z) :
  strconv.Atoi v = inl n -> strconv.minInt <= n <= strconv.maxInt.
Proof.
  unfold strconv.Atoi.
  destruct (match v with
            | EmptyString => (false, v)
            | String c s' =>
                if is_byte c "-" then (true, s')
                else if is_byte c "+" then (false, s') else (false, v)
            end) as [neg body].
  destruct body as [|c body]; [done|].
  destruct (strconv.digits 0 (String c body)) as [k|]; [|done].
  destruct (Z.leb_spec strconv.minInt (if neg then - k else k)); [|done].
  destruct (Z.leb_spec (if neg then - k else k) strconv.maxInt); [|done].
  simpl. by intros [= <-].
Qed.

Lemma wrap64_range (z : Z) :
  strconv.minInt <= time.wrap64 z <= strconv.maxInt.
Proof.
  unfold time.wrap64, strconv.minInt, strconv.maxInt.
  pose proof (Z.mod_pos_bound (z + 2 ^ 63) (2 ^ 64)). lia.
Qed.





(** X13: in every metric ParseHeader returns, a dur entry left in Extra is
    one that strconv.Atoi does not read, and the duration of that metric is
    zero. *)
Theorem leftover_dur_is_unreadable (input : string) (m : Metric) (v : string) :
  m ∈ Metrics (ParseHeader input).1 ->
  Extra m !! paramNameDur = Some v ->
  (exists e : strconv.NumError, strconv.Atoi v = inr e) /\ Duration m = 0.
Proof.
  rewrite ParseHeader_Metrics. intros (raw & -> & _)%list_elem_of_fmap.
  unfold parseMetric. generalize (header.ParseValueAndParams (headerParams raw)).
  intros np. unfold metricOf.
  pose proof (takeDesc_Duration
    {| Name := np.1; Duration := Duration zeroMetric;
       Desc := Desc zeroMetric; Extra := np.2 |}) as Hzero.
  revert Hzero. generalize (takeDesc
    {| Name := np.1; Duration := Duration zeroMetric;
       Desc := Desc zeroMetric; Extra := np.2 |}).
  intros m1 Hzero. simpl in Hzero. unfold takeDur.
  destruct (Extra m1 !! paramNameDur) as [v0|] eqn:E0.
  - destruct (strconv.Atoi v0) as [n|e] eqn:EA; simpl.
    + by rewrite lookup_delete_eq.
    + rewrite E0. intros [= <-]. eauto.
  - by rewrite E0.
Qed.

Lemma leftover_dur_is_unreadable_witness :
  exists m : Metric,
    m ∈ Metrics (ParseHeader "db;dur=soon").1 /\
    Extra m !! paramNameDur = Some "soon" /\
    Duration m = 0.
Proof.
  exists (parseMetric "db;dur=soon").
  assert (parseMetric "db;dur=soon" ∈ Metrics (ParseHeader "db;dur=soon").1)
    as Hin by (vm_compute; apply list_elem_of_here).
  assert (Extra (parseMetric "db;dur=soon") !! paramNameDur = Some "soon")
    as Hv by (vm_compute; reflexivity).
  split; [exact Hin|]. split; [exact Hv|].
  exact (proj2 (leftover_dur_is_unreadable _ _ _ Hin Hv)).
Defined.

(** X14: a dur value read as the integer n gives a duration of exactly n
    milliseconds if and only if n is between -9223372036854 and
    9223372036854; beyond, the int64 product wraps around. *)
Theorem dur_is_exact_within_bound (input raw v : string) (i : nat) (n : Z) :
  header.ParseList (headerParams input) !! i = Some raw ->
  (header.ParseValueAndParams (headerParams raw)).2 !! paramNameDur = Some v ->
  strconv.Atoi v = inl n ->
  exists m : Metric,
    Metrics (ParseHeader input).1 !! i = Some m /\
    (Duration m = n * 1000000
     <-> -9223372036854 <= n <= 9223372036854).
Proof.
  intros Hraw Hv Hn. exists (parseMetric raw). split.
  - rewrite ParseHeader_Metrics.
    change (map parseMetric ?l) with (parseMetric <$> l).
    by rewrite list_lookup_fmap, Hraw.
  - destruct (metricOf_dur_int _ v n Hv Hn) as [HD _].
    unfold parseMetric. rewrite HD. split.
    + intros Heq. pose proof (wrap64_range (n * 1000000)) as Hw.
      rewrite Heq in Hw. unfold strconv.minInt, strconv.maxInt in Hw. lia.
    + intros Hb. apply wrap64_small.
      unfold strconv.minInt, strconv.maxInt. lia.
Qed.

Lemma dur_is_exact_within_bound_witness :
  exists m : Metric,
    Metrics (ParseHeader "db;dur=9223372036855").1 !! 0%nat = Some m /\
    Duration m <> 9223372036855 * 1000000.
Proof.
  destruct (dur_is_exact_within_bound "db;dur=9223372036855"
              "db;dur=9223372036855" "9223372036855" 0 9223372036855)
    as (m & Hm & Hiff); try (vm_compute; reflexivity).
  exists m. split; [exact Hm|].
  intros H. apply Hiff in H. lia.
Defined.

(** X15: an element whose parameters hold neither desc nor dur gives a
    metric with a zero duration, an empty description and all the
    parameters in Extra. *)
Theorem element_without_reserved_names (raw : string) :
  (header.ParseValueAndParams (headerParams raw)).2 !! paramNameDesc = None ->
  (header.ParseValueAndParams (headerParams raw)).2 !! paramNameDur = None ->
  parseMetric raw
  = {| Name := (header.ParseValueAndParams (headerParams raw)).1;
       Duration := 0; Desc := EmptyString;
       Extra := (header.ParseValueAndParams (headerParams raw)).2 |}.
Proof.
  unfold parseMetric.
  generalize (header.ParseValueAndParams (headerParams raw)).
  intros np Hd Hu. unfold metricOf, takeDesc. simpl.
  rewrite Hd. unfold takeDur. simpl. by rewrite Hu.
Qed.

Lemma element_without_reserved_names_witness :
  parseMetric "total;host=a1"
  = {| Name := "total"; Duration := 0; Desc := EmptyString;
       Extra := {[ "host" := "a1" ]} |}.
Proof.
  rewrite (element_without_reserved_names "total;host=a1");
    vm_compute; reflexivity.
Defined.



(** X17: random of the example program returns a whole number of
    milliseconds from min, included, to max, excluded, when min is less than
    max, and panics when max is not more than min. *)
Theorem random_is_between_min_and_max (draw min max : Z) :
  -9223372036854 <= min <= 9223372036854 ->
  -9223372036854 <= max <= 9223372036854 ->
  (min < max ->
   exists d : Z,
     random draw min max = Returns d /\
     min * 1000000 <= d < max * 1000000 /\ d mod 1000000 = 0) /\
  (max <= min -> exists msg : string, random draw min max = Panics msg).
Proof.
  intros Hmin Hmax. unfold random, rand.Intn.
  rewrite wrap64_small by (unfold strconv.minInt, strconv.maxInt; lia).
  split.
  - intros Hlt. destruct (Z.leb_spec (max - min) 0); [lia|]. simpl.
    pose proof (Z.mod_pos_bound draw (max - min)).
    eexists. split; [reflexivity|].
    unfold time.mul. change time.Millisecond with 1000000.
    rewrite (wrap64_small (_ + min))
      by (unfold strconv.minInt, strconv.maxInt; lia).
    rewrite wrap64_small by (unfold strconv.minInt, strconv.maxInt; lia).
    split; [lia|]. apply Z_mod_mult.
  - intros Hge. destruct (Z.leb_spec (max - min) 0); [|lia].
    simpl. eauto.
Qed.

Lemma random_is_between_min_and_max_witness :
  exists d : Z,
    random 1234567 25 75 = Returns d /\
    25 * 1000000 <= d < 75 * 1000000 /\ d mod 1000000 = 0.
Proof.
  apply (random_is_between_min_and_max 1234567 25 75); lia.
Defined.
